(** * Rotation of integer grids (matrix/rotate_matrix.py)

    A shallow embedding of [make_matrix], [transpose], [reverse_row],
    [reverse_column] and the three rotations, first as functions on values
    ([list (list Z)]), then as programs over a store of Python list objects,
    where object identity and mutation can be talked about; and of
    [print_matrix], as the text it writes. *)

From stdpp Require Import base numbers option list gmap strings pretty.

(** ** Python built-ins used by the module *)

Module Py.

(** [a or b] on integers: [a] when it is truthy (non-zero), else [b]. *)
Definition int_or (a b : Z) : Z := if bool_decide (a = 0%Z) then b else a.

(** [range(n)]: 0, 1, ..., n-1 (empty when [n <= 0]). *)
Definition range (n : Z) : list Z := seqZ 0 n.

(** [s[::-1]] on a list. *)
Definition slice_rev {A} (s : list A) : list A := reverse s.

(** One [__next__] of a zip object on the iterators that follow the first:
    each iterator is advanced in turn; an exhausted one ends the zip. *)
Fixpoint zip_next {A} (its : list (list A)) : option (list A * list (list A)) :=
  match its with
  | [] => Some ([], [])
  | it :: its' =>
      match it with
      | [] => None
      | x :: it' =>
          match zip_next its' with
          | None => None
          | Some (t, rest) => Some (x :: t, it' :: rest)
          end
      end
  end.

(** The tuples produced by a zip object whose first iterator is [it]. *)
Fixpoint zip_from {A} (it : list A) (its : list (list A)) : list (list A) :=
  match it with
  | [] => []
  | x :: it' =>
      match zip_next its with
      | None => []
      | Some (t, its') => (x :: t) :: zip_from it' its'
      end
  end.

(** [zip] applied to the unpacked [args], tuples written as lists; with no
    argument at all it produces nothing. *)
Definition zip_star {A} (args : list (list A)) : list (list A) :=
  match args with
  | [] => []
  | it :: its => zip_from it its
  end.

(** [list(x)] of a tuple [x]. *)
Definition list_of {A} (x : list A) : list A := x.

(** [str(z)] of an integer: its decimal digits, after a minus sign when it is
    negative. *)
Definition str_int (z : Z) : string := pretty z.

(** [sep.join(parts)]. *)
Fixpoint join (sep : string) (parts : list string) : string :=
  match parts with
  | [] => EmptyString
  | p :: ps =>
      match ps with
      | [] => p
      | _ :: _ => p +:+ sep +:+ join sep ps
      end
  end.

Definition space : Ascii.ascii := Ascii.ascii_of_nat 32.
Definition newline : Ascii.ascii := Ascii.ascii_of_nat 10.

(** The text [print] writes for the unpacked [args]: their [str], separated
    by one space, then a newline. *)
Definition print_args (args : list Z) : string :=
  join (String space EmptyString) (str_int <$> args)
  +:+ String newline EmptyString.

End Py.

(** ** The grid functions, on values *)

Abbreviation grid := (list (list Z)).

Definition make_matrix (row_size : Z) : grid :=
  let row_size := Py.int_or (Z.abs row_size) 4 in
  (λ y, (λ x, 1 + x + y * row_size)%Z <$> Py.range row_size) <$> Py.range row_size.

Definition transpose (matrix : grid) : grid :=
  Py.list_of <$> Py.zip_star matrix.

Definition reverse_row (matrix : grid) : grid :=
  Py.slice_rev matrix.

Definition reverse_column (matrix : grid) : grid :=
  Py.slice_rev <$> matrix.

Definition rotate_90 (matrix : grid) : grid :=
  reverse_row (transpose matrix).

Definition rotate_180 (matrix : grid) : grid :=
  reverse_row (reverse_column matrix).

Definition rotate_270 (matrix : grid) : grid :=
  reverse_column (transpose matrix).

(** [print_matrix]: one [print] per row; [stdout] is the text written so far,
    the result the text written when the function returns (its Python result
    is [None]). *)
Fixpoint print_matrix (matrix : grid) (stdout : string) : string :=
  match matrix with
  | [] => stdout
  | row :: rest => print_matrix rest (stdout +:+ Py.print_args row)
  end.

(** ** Shapes and cells *)

(** [m[i][j]], when both indices are in range. *)
Definition cell (m : grid) (i j : nat) : option Z := m !! i ≫= (.!! j).

(** [m] has [R] rows, each of [C] elements. *)
Definition shape (R C : nat) (m : grid) : Prop :=
  length m = R ∧ Forall (λ row, length row = C) m.

Definition rows (m : grid) : nat := length m.
Definition cols (m : grid) : nat := from_option length 0 (head m).

(** A Grid of the data model: at least one row, at least one column, all rows
    of one length. *)
Definition rectangular (m : grid) : Prop :=
  1 ≤ rows m ∧ 1 ≤ cols m ∧ Forall (λ row, length row = cols m) m.

(** Rows of unequal length. *)
Definition jagged (m : grid) : Prop :=
  Exists (λ row, length row ≠ cols m) m.

(** [min(len(row) for row in m)], for a grid with at least one row. *)
Definition min_row_length (m : grid) : nat :=
  match m with
  | [] => 0
  | r :: rest => foldr (λ row acc, length row `min` acc) (length r) rest
  end.

(** [s] has neither a space nor a newline. *)
Fixpoint sep_free (s : string) : Prop :=
  match s with
  | EmptyString => True
  | String c s' => c ≠ Py.space ∧ c ≠ Py.newline ∧ sep_free s'
  end.


(** The values of a grid, row after row. *)
Definition values (m : grid) : list Z := mjoin m.

(** The side of the grid [make_matrix] builds, in the words of the contract:
    the absolute value of the argument, or 4 when that is zero. *)
Definition side (row_size : Z) : Z :=
  if decide (Z.abs row_size ≠ 0%Z) then Z.abs row_size else 4%Z.

#[global] Instance shape_dec R C m : Decision (shape R C m).
Proof. unfold shape. apply _. Defined.

#[global] Instance rectangular_dec m : Decision (rectangular m).
Proof. unfold rectangular. apply _. Defined.

#[global] Instance jagged_dec m : Decision (jagged m).
Proof. unfold jagged. apply _. Defined.

(** ** The grid functions, on a store of list objects

    A Python list is an object with an identity; a grid is a list object
    whose items are references to row objects, whose items are integers.  The
    same source functions are embedded once more, as programs that read,
    allocate and append to list objects, and may fail (a [TypeError]). *)

Module Store.

Abbreviation loc := positive.

Inductive value : Type :=
| VInt (z : Z)
| VRef (l : loc).

(** The store maps the identity of each live list object to its items. *)
Abbreviation heap := (gmap loc (list value)).

Definition M (A : Type) : Type := heap → option (A * heap).

Definition ret {A} (a : A) : M A := λ h, Some (a, h).

Definition bind {A B} (c : M A) (k : A → M B) : M B :=
  λ h, match c h with
       | None => None
       | Some (a, h') => k a h'
       end.

Declare Scope store_scope.
Delimit Scope store_scope with store.
Notation "'let!' x ':=' c 'in' k" := (bind c (λ x, k))
  (at level 10, x name, c at level 100, k at level 200) : store_scope.
Local Open Scope store_scope.

(** A new list object, at an identity no live object has. *)
Definition alloc (items : list value) : M value :=
  λ h, let l := fresh (dom h) in Some (VRef l, <[l := items]> h).

(** The items of a list object; an integer has none. *)
Definition items (v : value) : M (list value) :=
  λ h, match v with
       | VInt _ => None
       | VRef l =>
           match h !! l with
           | None => None
           | Some xs => Some (xs, h)
           end
       end.

(** [LIST_APPEND]: the one mutation the module performs, on the list under
    construction by a comprehension. *)
Definition append (out v : value) : M unit :=
  λ h, match out with
       | VInt _ => None
       | VRef l =>
           match h !! l with
           | None => None
           | Some xs => Some (tt, <[l := xs ++ [v]]> h)
           end
       end.

Fixpoint for_each {A} (xs : list A) (body : A → M unit) : M unit :=
  match xs with
  | [] => ret tt
  | x :: xs' => let! _ := body x in for_each xs' body
  end.

Fixpoint map_m {A B} (f : A → M B) (xs : list A) : M (list B) :=
  match xs with
  | [] => ret []
  | x :: xs' => let! y := f x in let! ys := map_m f xs' in ret (y :: ys)
  end.

(** [[e for x in xs]]: a new empty list, to which the value of [e] is
    appended for each [x]. *)
Definition list_comp {A} (e : A → M value) (xs : list A) : M value :=
  let! out := alloc [] in
  let! _ := for_each xs (λ x, let! v := e x in append out v) in
  ret out.

(** [s[::-1]] on a list object: a new list object. *)
Definition slice_rev (s : value) : M value :=
  let! xs := items s in alloc (Py.slice_rev xs).

(** [list(x)] of a tuple: a new list object. *)
Definition list_of (x : list value) : M value := alloc (Py.list_of x).

(** [zip] applied to the unpacked items of [matrix]: every argument must be
    iterable.  The tuples are immutable and are kept as values.  The rows
    are not written to while the zip object is consumed, so the tuples are
    computed from the rows as they are when zip is called. *)
Definition zip_star (matrix : value) : M (list (list value)) :=
  let! args := items matrix in
  let! its := map_m items args in
  ret (Py.zip_star its).

Definition transpose (matrix : value) : M value :=
  let! ts := zip_star matrix in
  list_comp list_of ts.

Definition reverse_row (matrix : value) : M value :=
  slice_rev matrix.

(** The loop body writes only to the list under construction, so the items
    of [matrix] are read once, before the loop. *)
Definition reverse_column (matrix : value) : M value :=
  let! xs := items matrix in
  list_comp slice_rev xs.

Definition rotate_90 (matrix : value) : M value :=
  let! t := transpose matrix in reverse_row t.

Definition rotate_180 (matrix : value) : M value :=
  let! t := reverse_column matrix in reverse_row t.

Definition rotate_270 (matrix : value) : M value :=
  let! t := transpose matrix in reverse_column t.

(** *** Reading a grid out of the store *)

Definition as_int (v : value) : option Z :=
  match v with
  | VInt z => Some z
  | VRef _ => None
  end.

Definition read_row (h : heap) (v : value) : option (list Z) :=
  match v with
  | VInt _ => None
  | VRef l => h !! l ≫= mapM as_int
  end.

Definition read_grid (h : heap) (v : value) : option grid :=
  match v with
  | VInt _ => None
  | VRef l => h !! l ≫= mapM (read_row h)
  end.

(** [f] implements [F] without touching any object that was live when it
    was called: the call succeeds, every such object keeps its items
    ([h ⊆ h']), and the result is an object that was not live before. *)
Definition fresh_result (f : value → M value) (F : grid → grid) : Prop :=
  ∀ (h : heap) (m : value) (g : grid),
    read_grid h m = Some g →
    ∃ (r : loc) (h' : heap),
      f m h = Some (VRef r, h') ∧
      (r ∉ dom h) ∧ VRef r ≠ m ∧
      h ⊆ h' ∧
      read_grid h' m = Some g ∧
      read_grid h' (VRef r) = Some (F g).

(** Called on an object that spells out [g], [f] raises nothing and returns
    an object that spells out [g']. *)
Definition returns (f : value → M value) (g g' : grid) : Prop :=
  ∀ (h : heap) (m : value),
    read_grid h m = Some g →
    ∃ (r : value) (h' : heap), f m h = Some (r, h') ∧ read_grid h' r = Some g'.

(** Called on an object that spells out a grid, [f] returns a list object
    whose items are references to pairwise distinct objects, none of which
    was live at the call. *)
Definition fresh_rows (f : value → M value) : Prop :=
  ∀ (h : heap) (m : value) (g : grid),
    read_grid h m = Some g →
    ∃ (r : loc) (h' : heap) (ls : list loc),
      f m h = Some (VRef r, h') ∧
      h' !! r = Some (VRef <$> ls) ∧
      NoDup ls ∧ Forall (λ l, l ∉ dom h) ls.

(** Called on a list object, [f] returns and leaves every live object as it
    was; the result is a new object whose items are the items of the
    argument, the same objects, in reverse order. *)
Definition shares_items (f : value → M value) : Prop :=
  ∀ (h : heap) (l : loc) (xs : list value),
    h !! l = Some xs →
    ∃ (r : loc),
      f (VRef l) h = Some (VRef r, <[r := reverse xs]> h) ∧ r ∉ dom h.

(** A store holding the grid [[1,2,3],[4,5,6]] at object 1. *)
Definition example_heap : heap :=
  <[1%positive := [VRef 2; VRef 3]]>
    (<[2%positive := [VInt 1; VInt 2; VInt 3]]>
       (<[3%positive := [VInt 4; VInt 5; VInt 6]]> ∅)).

End Store.

(** [m] is a list object of references to list objects of integers that
    spell out [g]. *)
Definition is_grid (h : Store.heap) (m : Store.value) (g : grid) : Prop :=
  ∃ l ls, m = Store.VRef l ∧
          h !! l = Some (Store.VRef <$> ls) ∧
          Forall2 (λ l' row, h !! l' = Some (Store.VInt <$> row)) ls g.

(** [e x] allocates one list object holding [content] and touches nothing
    else, in every store that extends [h]. *)
Definition builds {A} (h : Store.heap) (e : A → Store.M Store.value) (x : A)
    (content : list Store.value) : Prop :=
  ∀ hk : Store.heap, h ⊆ hk →
    ∃ l, e x hk = Some (Store.VRef l, <[l := content]> hk) ∧ hk !! l = None.

(** The statement of [Store.fresh_result] on the representation predicate,
    which composes. *)
Definition fresh_rep (f : Store.value → Store.M Store.value)
    (F : grid → grid) : Prop :=
  ∀ (h : Store.heap) (m : Store.value) (g : grid),
    is_grid h m g →
    ∃ r h', f m h = Some (Store.VRef r, h') ∧
            h !! r = None ∧ h ⊆ h' ∧ is_grid h' (Store.VRef r) (F g).

(** [fresh_rep] together with what [Store.fresh_rows] says of the rows of the
    result. *)
Definition rows_rep (f : Store.value → Store.M Store.value)
    (F : grid → grid) : Prop :=
  ∀ (h : Store.heap) (m : Store.value) (g : grid),
    is_grid h m g →
    ∃ r ls h', f m h = Some (Store.VRef r, h') ∧
               h !! r = None ∧ h ⊆ h' ∧
               h' !! r = Some (Store.VRef <$> ls) ∧
               Forall2 (λ l row, h' !! l = Some (Store.VInt <$> row)) ls (F g) ∧
               NoDup ls ∧ Forall (λ l, h !! l = None) ls.

(** * Properties *)

Example ex_make4 : make_matrix 4 = [[1;2;3;4];[5;6;7;8];[9;10;11;12];[13;14;15;16]]%Z.
Proof. reflexivity. Qed.
Example ex_make_neg2 : make_matrix (-2) = [[1;2];[3;4]]%Z.
Proof. reflexivity. Qed.
Example ex_rot90 : rotate_90 [[1;2;3];[4;5;6]]%Z = [[3;6];[2;5];[1;4]]%Z.
Proof. reflexivity. Qed.
Example ex_rot180 : rotate_180 [[1;2;3];[4;5;6]]%Z = [[6;5;4];[3;2;1]]%Z.
Proof. reflexivity. Qed.
Example ex_rot270 : rotate_270 [[1;2;3];[4;5;6]]%Z = [[4;1];[5;2];[6;3]]%Z.
Proof. reflexivity. Qed.
Example ex_transpose_jagged : transpose [[1;2;3];[4];[5;6]]%Z = [[1;4;5]]%Z.
Proof. reflexivity. Qed.

(** Rows without columns are outside the data model (a Grid has at least one
    row and one column): zip produces no tuple for them, so the number of
    rows is lost. *)
Example ex_transpose_zero_cols : transpose (transpose [[];[]]) = [].
Proof. reflexivity. Qed.
Example ex_rot90_zero_cols :
  rotate_90 (rotate_90 [[];[]]) = [] ∧ rotate_180 [[];[]] = [[];[]].
Proof. split; reflexivity. Qed.

Example ex_store_read :
  Store.read_grid Store.example_heap (Store.VRef 1) = Some [[1;2;3];[4;5;6]]%Z.
Proof. vm_compute. reflexivity. Qed.
Example ex_store_rot90 :
  (Store.rotate_90 (Store.VRef 1) Store.example_heap) ≫=
    (λ '(r, h'), Store.read_grid h' r) = Some [[3;6];[2;5];[1;4]]%Z.
Proof. vm_compute. reflexivity. Qed.

(** ** The tuples of zip *)

Section zip.
Context {A : Type}.
Implicit Types (its : list (list A)) (it t : list A).

Lemma zip_next_None its i :
  Py.zip_next its = None → mapM (.!! i) its = None.
Proof.
  induction its as [|[|x it] its IH]; simpl; [done..|].
  destruct (Py.zip_next its) as [[t rest]|]; [done|].
  intros _. rewrite IH by done. by destruct (_ !! _).
Qed.

Lemma zip_next_Some its t rest :
  Py.zip_next its = Some (t, rest) →
  mapM (.!! 0) its = Some t ∧ ∀ i, mapM (.!! S i) its = mapM (.!! i) rest.
Proof.
  revert t rest.
  induction its as [|[|x it] its IH]; intros t rest; simpl.
  - intros [= <- <-]. done.
  - done.
  - destruct (Py.zip_next its) as [[t' rest']|]; [|done].
    intros [= <- <-]. destruct (IH _ _ eq_refl) as [H0 HS].
    split; [by rewrite H0|].
    intros i. simpl. by rewrite HS.
Qed.

(** The [i]-th tuple of a zip holds the [i]-th item of every argument, and
    exists exactly when they all do. *)
Lemma zip_from_lookup it its i :
  Py.zip_from it its !! i = mapM (.!! i) (it :: its).
Proof.
  revert its i. induction it as [|x it IH]; intros its i; [done|].
  simpl. destruct (Py.zip_next its) as [[t rest]|] eqn:Hn.
  - destruct (zip_next_Some _ _ _ Hn) as [H0 HS].
    destruct i as [|i]; simpl.
    + by rewrite H0.
    + rewrite IH. simpl. by rewrite HS.
  - rewrite (zip_next_None _ i Hn), lookup_nil. by destruct (_ !! i).
Qed.

Lemma zip_star_lookup its i :
  its ≠ [] → Py.zip_star its !! i = mapM (.!! i) its.
Proof. destruct its; [done|]. intros _. apply zip_from_lookup. Qed.

Lemma mapM_reverse {X B} (f : X → option B) (l : list X) :
  mapM f (reverse l) = reverse <$> mapM f l.
Proof.
  destruct (mapM f l) as [k|] eqn:Hl; simpl.
  - apply mapM_Some, Forall2_reverse. by apply mapM_Some.
  - apply mapM_None. apply mapM_None in Hl.
    rewrite Exists_exists in *. setoid_rewrite elem_of_reverse. done.
Qed.

Lemma zip_star_reverse its :
  Py.zip_star (reverse its) = reverse <$> Py.zip_star its.
Proof.
  destruct (decide (its = [])) as [->|Hne]; [done|].
  assert (reverse its ≠ []) as Hr.
  { intros Hr. apply Hne. by rewrite <-(reverse_involutive its), Hr. }
  apply list_eq; intros i.
  rewrite list_lookup_fmap, !zip_star_lookup by done. apply mapM_reverse.
Qed.

Lemma mapM_lookup_transposed its t i j :
  mapM (.!! i) its = Some t → t !! j = its !! j ≫= (.!! i).
Proof.
  intros Ht%mapM_Some. pose proof (proj1 (Forall2_lookup _ _ _) Ht j) as Hj.
  by destruct Hj.
Qed.

End zip.

(** ** Transposition *)

Lemma length_from_lookup {A} (l : list A) (n : nat) :
  (∀ i, is_Some (l !! i) ↔ i < n) → length l = n.
Proof.
  intros H. destruct (Nat.lt_trichotomy (length l) n) as [Hlt|[Heq|Hgt]]; [|done|].
  - apply H, lookup_lt_is_Some in Hlt. lia.
  - apply lookup_lt_is_Some, H in Hgt. lia.
Qed.

Lemma min_row_length_lt (m : grid) (i : nat) :
  m ≠ [] → i < min_row_length m ↔ Forall (λ row, i < length row) m.
Proof.
  destruct m as [|r rest]; [done|]. intros _. simpl.
  rewrite Forall_cons. induction rest as [|r' rest IH]; simpl.
  - rewrite Forall_nil. tauto.
  - rewrite Forall_cons, Nat.min_glb_lt_iff. tauto.
Qed.

Lemma min_row_length_shape (R C : nat) (m : grid) :
  shape R C m → 1 ≤ R → min_row_length m = C.
Proof.
  intros [HR HC] ?. destruct m as [|r rest]; simpl in *; [lia|].
  apply Forall_cons in HC as [Hr HC]. clear HR.
  induction HC as [|r' rest Hr' _ IH]; simpl; lia.
Qed.

Lemma transpose_zip_star (m : grid) : transpose m = Py.zip_star m.
Proof. unfold transpose. apply list_fmap_id. Qed.

Lemma transpose_lookup (m : grid) (i : nat) :
  m ≠ [] → transpose m !! i = mapM (.!! i) m.
Proof. rewrite transpose_zip_star. apply zip_star_lookup. Qed.

Lemma transpose_nil : transpose [] = [].
Proof. done. Qed.

(** Every row of the transposed grid has one element per row of the input. *)
Lemma transpose_row_length (m : grid) :
  Forall (λ row, length row = length m) (transpose m).
Proof.
  destruct (decide (m = [])) as [->|Hne]; [by constructor|].
  apply Forall_lookup. intros i t. rewrite transpose_lookup by done.
  intros Ht%length_mapM. done.
Qed.

(** The transposed grid has as many rows as the shortest input row has
    elements. *)
Lemma transpose_length (m : grid) :
  m ≠ [] → length (transpose m) = min_row_length m.
Proof.
  intros Hne. apply length_from_lookup. intros i.
  rewrite transpose_lookup, mapM_is_Some, min_row_length_lt by done.
  apply Forall_proper; [|done]. intros row. apply lookup_lt_is_Some.
Qed.

Lemma transpose_shape (R C : nat) (m : grid) :
  1 ≤ R → shape R C m → shape C R (transpose m).
Proof.
  intros HR Hm. pose proof Hm as [Hlen _]. split.
  - rewrite transpose_length by (intros ->; simpl in *; lia).
    by eapply min_row_length_shape.
  - rewrite <-Hlen. apply transpose_row_length.
Qed.

(** Whatever the input, a cell of the transposed grid is the mirrored cell of
    the input. *)
Lemma transpose_cell_Some (m : grid) (i j : nat) (v : Z) :
  cell (transpose m) i j = Some v → cell m j i = Some v.
Proof.
  unfold cell. destruct (decide (m = [])) as [->|Hne]; [done|].
  rewrite transpose_lookup by done.
  destruct (mapM _ m) as [t|] eqn:Ht; [simpl|done].
  by rewrite (mapM_lookup_transposed _ _ _ _ Ht).
Qed.

Lemma shape_cell_is_Some (R C : nat) (m : grid) (i j : nat) :
  shape R C m → i < R → j < C → is_Some (cell m i j).
Proof.
  intros [HR HC] Hi Hj. unfold cell.
  destruct (lookup_lt_is_Some_2 m i) as [row Hrow]; [lia|].
  rewrite Hrow. simpl. apply lookup_lt_is_Some.
  rewrite Forall_lookup in HC. by rewrite (HC _ _ Hrow).
Qed.

Lemma transpose_cell (R C : nat) (m : grid) (i j : nat) :
  1 ≤ R → shape R C m → i < C → j < R →
  ∃ v, cell m j i = Some v ∧ cell (transpose m) i j = Some v.
Proof.
  intros HR Hm Hi Hj.
  destruct (shape_cell_is_Some C R (transpose m) i j) as [v Hv]; [|done..|].
  { by apply transpose_shape. }
  exists v. split; [|done]. by apply transpose_cell_Some.
Qed.

Lemma rectangular_shape (m : grid) :
  rectangular m ↔ 1 ≤ rows m ∧ 1 ≤ cols m ∧ shape (rows m) (cols m) m.
Proof. unfold rectangular, shape, rows. tauto. Qed.

Lemma shape_rectangular (R C : nat) (m : grid) :
  1 ≤ R → 1 ≤ C → shape R C m → rectangular m.
Proof.
  intros ?? [<- HC]. destruct m as [|r rest]; simpl in *; [lia|].
  pose proof HC as [<- _]%Forall_cons. done.
Qed.

Lemma transpose_involutive_shape (R C : nat) (m : grid) :
  1 ≤ C → shape R C m → transpose (transpose m) = m.
Proof.
  intros HC Hm. destruct (decide (m = [])) as [->|Hne]; [done|].
  assert (1 ≤ R) as HR.
  { destruct Hm as [<- _]. destruct m; simpl; [done|lia]. }
  pose proof (transpose_shape _ _ _ HR Hm) as [HlenT HrowsT].
  assert (transpose m ≠ []) as HneT by (intros E; rewrite E in HlenT; simpl in *; lia).
  apply list_eq. intros j. rewrite transpose_lookup by done.
  destruct (m !! j) as [row|] eqn:Hrow.
  - apply mapM_Some, Forall2_same_length_lookup. split.
    + destruct Hm as [_ Hm]. rewrite Forall_lookup in Hm.
      by rewrite HlenT, (Hm _ _ Hrow).
    + intros i t y Ht Hy. rewrite transpose_lookup in Ht by done.
      by rewrite (mapM_lookup_transposed _ _ _ _ Ht), Hrow.
  - apply mapM_None, Exists_exists.
    destruct (lookup_lt_is_Some_2 (transpose m) 0) as [t Ht]; [lia|].
    exists t. split; [by eapply list_elem_of_lookup_2|].
    rewrite transpose_lookup in Ht by done.
    by rewrite (mapM_lookup_transposed _ _ _ _ Ht), Hrow.
Qed.

Lemma transpose_involutive (m : grid) :
  rectangular m → transpose (transpose m) = m.
Proof.
  intros (_ & HC & Hm)%rectangular_shape. by eapply transpose_involutive_shape.
Qed.

Lemma transpose_reverse_row (m : grid) :
  transpose (reverse_row m) = reverse_column (transpose m).
Proof. rewrite !transpose_zip_star. apply zip_star_reverse. Qed.

(** ** Reversals and rotations *)

Lemma reverse_row_involutive (m : grid) : reverse_row (reverse_row m) = m.
Proof. apply reverse_involutive. Qed.

Lemma reverse_column_involutive (m : grid) :
  reverse_column (reverse_column m) = m.
Proof.
  unfold reverse_column, Py.slice_rev. rewrite <-list_fmap_compose.
  rewrite <-(list_fmap_id m) at 2. apply list_fmap_ext.
  intros _ row _. apply reverse_involutive.
Qed.

Lemma reverse_row_column (m : grid) :
  reverse_row (reverse_column m) = reverse_column (reverse_row m).
Proof. unfold reverse_row, reverse_column, Py.slice_rev. by rewrite fmap_reverse. Qed.

Lemma reverse_row_shape (R C : nat) (m : grid) :
  shape R C m → shape R C (reverse_row m).
Proof.
  unfold reverse_row, Py.slice_rev. intros [HR HC]. split.
  - by rewrite length_reverse.
  - by apply Forall_reverse.
Qed.

Lemma reverse_column_shape (R C : nat) (m : grid) :
  shape R C m → shape R C (reverse_column m).
Proof.
  unfold reverse_column, Py.slice_rev. intros [HR HC]. split.
  - by rewrite length_fmap.
  - rewrite Forall_fmap. eapply Forall_impl; [done|].
    intros row Hrow. simpl. by rewrite length_reverse.
Qed.

Lemma rotate_180_involutive (m : grid) : rotate_180 (rotate_180 m) = m.
Proof.
  unfold rotate_180.
  by rewrite <-reverse_row_column, reverse_row_involutive, reverse_column_involutive.
Qed.

Lemma rotate_90_shape (R C : nat) (m : grid) :
  1 ≤ R → shape R C m → shape C R (rotate_90 m).
Proof. intros. by apply reverse_row_shape, transpose_shape. Qed.

Lemma rotate_180_shape (R C : nat) (m : grid) :
  shape R C m → shape R C (rotate_180 m).
Proof. intros. by apply reverse_row_shape, reverse_column_shape. Qed.

Lemma rotate_270_shape (R C : nat) (m : grid) :
  1 ≤ R → shape R C m → shape C R (rotate_270 m).
Proof. intros. by apply reverse_column_shape, transpose_shape. Qed.

Lemma rotate_90_twice_shape (R C : nat) (m : grid) :
  1 ≤ C → shape R C m → rotate_90 (rotate_90 m) = rotate_180 m.
Proof.
  intros HC Hm. unfold rotate_90, rotate_180.
  by rewrite transpose_reverse_row, (transpose_involutive_shape R C).
Qed.

Lemma rotate_90_four_shape (R C : nat) (m : grid) :
  1 ≤ C → shape R C m →
  rotate_90 (rotate_90 (rotate_90 (rotate_90 m))) = m.
Proof.
  intros HC Hm. rewrite (rotate_90_twice_shape R C m) by done.
  rewrite (rotate_90_twice_shape R C (rotate_180 m)) by auto using rotate_180_shape.
  apply rotate_180_involutive.
Qed.

(** Three quarter turns are the transposition with every row reversed, on
    every list of rows: the first transposition already yields rows of one
    length. *)
Lemma rotate_90_thrice (m : grid) :
  rotate_90 (rotate_90 (rotate_90 m)) = rotate_270 m.
Proof.
  destruct (decide (transpose m = [])) as [E|Hne].
  { unfold rotate_270, rotate_90. by rewrite E. }
  assert (m ≠ []) as Hm by (by intros ->).
  assert (shape (length (transpose m)) (length m) (rotate_90 m)) as Hs.
  { apply reverse_row_shape. split; [done|]. apply transpose_row_length. }
  assert (1 ≤ length m) as Hlen by (destruct m; simpl; [done|lia]).
  rewrite (rotate_90_twice_shape _ _ _ Hlen Hs).
  unfold rotate_180, rotate_90, rotate_270.
  by rewrite reverse_row_column, reverse_row_involutive.
Qed.

(** ** Construction *)

Lemma int_or_abs (row_size : Z) : Py.int_or (Z.abs row_size) 4 = side row_size.
Proof.
  unfold Py.int_or, side. case_bool_decide; case_decide; done.
Qed.

Lemma side_pos (row_size : Z) : (0 < side row_size)%Z.
Proof. unfold side. case_decide; lia. Qed.

Lemma make_matrix_shape (row_size : Z) :
  shape (Z.to_nat (side row_size)) (Z.to_nat (side row_size)) (make_matrix row_size).
Proof.
  unfold make_matrix, Py.range. rewrite int_or_abs. split.
  - by rewrite length_fmap, length_seqZ.
  - apply Forall_fmap, Forall_forall. intros y _. simpl.
    by rewrite length_fmap, length_seqZ.
Qed.

Lemma make_matrix_cell (row_size : Z) (x y : nat) :
  (Z.of_nat x < side row_size)%Z → (Z.of_nat y < side row_size)%Z →
  cell (make_matrix row_size) y x
  = Some (1 + Z.of_nat x + Z.of_nat y * side row_size)%Z.
Proof.
  intros Hx Hy. unfold cell, make_matrix, Py.range. rewrite int_or_abs.
  rewrite list_lookup_fmap, lookup_seqZ_lt by done. simpl.
  rewrite list_lookup_fmap, lookup_seqZ_lt by done. simpl.
  do 2 f_equal.
Qed.

Lemma make_matrix_opp (row_size : Z) :
  make_matrix row_size = make_matrix (- row_size).
Proof. unfold make_matrix. by rewrite Z.abs_opp. Qed.

Lemma make_matrix_rectangular (row_size : Z) : rectangular (make_matrix row_size).
Proof.
  pose proof (side_pos row_size).
  eapply shape_rectangular; [| |apply make_matrix_shape]; lia.
Qed.

(** ** The store programs *)

Section zip_fmap.
Context {A B : Type} (f : A → B).

Lemma zip_next_fmap (its : list (list A)) :
  Py.zip_next (fmap (M:=list) f <$> its)
  = prod_map (fmap (M:=list) f) (fmap (M:=list) (fmap (M:=list) f)) <$> Py.zip_next its.
Proof.
  induction its as [|[|x it] its IH]; csimpl; [done..|].
  rewrite IH. by destruct (Py.zip_next its) as [[t rest]|].
Qed.

Lemma zip_from_fmap (it : list A) (its : list (list A)) :
  Py.zip_from (f <$> it) (fmap (M:=list) f <$> its) = fmap (M:=list) f <$> Py.zip_from it its.
Proof.
  revert its. induction it as [|x it IH]; intros its; csimpl; [done|].
  rewrite zip_next_fmap. destruct (Py.zip_next its) as [[t rest]|]; csimpl; [|done].
  by rewrite IH.
Qed.

Lemma zip_star_fmap (its : list (list A)) :
  Py.zip_star (fmap (M:=list) f <$> its) = fmap (M:=list) f <$> Py.zip_star its.
Proof. destruct its; [done|]. apply zip_from_fmap. Qed.
End zip_fmap.

Section store.
Implicit Types (h : Store.heap) (l out : Store.loc) (ls : list Store.loc).
Implicit Types (v m : Store.value) (g : grid).


Lemma read_row_Some h v (row : list Z) :
  Store.read_row h v = Some row ↔
  ∃ l, v = Store.VRef l ∧ h !! l = Some (Store.VInt <$> row).
Proof.
  destruct v as [z|l]; simpl.
  { split; [done|]. by intros (? & [=] & _). }
  split.
  - destruct (h !! l) as [xs|] eqn:Hl; simpl; [|done]. intros Hxs.
    exists l. split; [done|]. rewrite Hl. f_equal. symmetry.
    eapply mapM_fmap_Some_inv; [done|]. by intros [] ? [= ->].
  - intros (? & [= <-] & ->). simpl. by apply mapM_fmap_Some.
Qed.

Lemma read_rows_Forall2 h (vs : list Store.value) g :
  Forall2 (λ v row, Store.read_row h v = Some row) vs g ↔
  ∃ ls, vs = Store.VRef <$> ls ∧
        Forall2 (λ l' row, h !! l' = Some (Store.VInt <$> row)) ls g.
Proof.
  split.
  - induction 1 as [|v row vs g (l & -> & Hl)%read_row_Some _ (ls & -> & IH)].
    + by exists [].
    + exists (l :: ls). split; [done|]. by constructor.
  - intros (ls & -> & H). apply Forall2_fmap_l.
    eapply Forall2_impl; [done|]. intros l row Hl. apply read_row_Some. eauto.
Qed.

Lemma read_grid_Some h m g : Store.read_grid h m = Some g ↔ is_grid h m g.
Proof.
  unfold is_grid. destruct m as [z|l]; simpl.
  { split; [done|]. by intros (? & ? & [=] & _). }
  split.
  - destruct (h !! l) as [vs|] eqn:Hl; simpl; [|done].
    intros (ls & -> & H)%mapM_Some%read_rows_Forall2. eauto.
  - intros (? & ls & [= <-] & -> & H). simpl.
    apply mapM_Some, read_rows_Forall2. eauto.
Qed.

Lemma is_grid_weaken h h' m g : h ⊆ h' → is_grid h m g → is_grid h' m g.
Proof.
  intros Hsub (l & ls & -> & Hl & Hrows). exists l, ls. split_and!; [done|..].
  - by eapply lookup_weaken.
  - eapply Forall2_impl; [done|]. intros l' row Hrow. simpl in Hrow.
    by eapply lookup_weaken.
Qed.

Lemma is_grid_live h l g : is_grid h (Store.VRef l) g → l ∈ dom h.
Proof. intros (? & ls & [= <-] & Hl & _). by apply elem_of_dom. Qed.

Lemma alloc_fresh h (xs : list Store.value) :
  ∃ l, Store.alloc xs h = Some (Store.VRef l, <[l := xs]> h) ∧
       (l ∉ dom h) ∧ h ⊆ <[l := xs]> h.
Proof.
  exists (fresh (dom h)). pose proof (is_fresh (dom h)) as Hf.
  split_and!; [done..|]. by apply insert_subseteq, not_elem_of_dom.
Qed.

Lemma run_bind {A B} (c : Store.M A) (k : A → Store.M B) h a h' :
  c h = Some (a, h') → Store.bind c k h = k a h'.
Proof. unfold Store.bind. by intros ->. Qed.

Lemma run_items h l (xs : list Store.value) :
  h !! l = Some xs → Store.items (Store.VRef l) h = Some (xs, h).
Proof. simpl. by intros ->. Qed.

(** The items of the rows of a grid, read for [zip]. *)
Lemma map_m_items h ls g :
  Forall2 (λ l' row, h !! l' = Some (Store.VInt <$> row)) ls g →
  Store.map_m Store.items (Store.VRef <$> ls) h
  = Some (fmap (M:=list) Store.VInt <$> g, h).
Proof.
  induction 1 as [|l row ls g Hl _ IH]; [done|].
  csimpl. erewrite run_bind by by apply run_items.
  by erewrite run_bind by done.
Qed.


(** The loop of a comprehension: only the list under construction and the
    objects allocated on the way are written. *)
Lemma for_each_append {A} h (e : A → Store.M Store.value) out
    (xs : list A) (cs : list (list Store.value)) :
  h !! out = None →
  Forall2 (builds h e) xs cs →
  ∀ hk acc,
    h ⊆ hk → hk !! out = Some (Store.VRef <$> acc) →
    ∃ ls h',
      Store.for_each xs
        (λ x, Store.bind (e x) (Store.append (Store.VRef out))) hk
      = Some (tt, h') ∧
      h' !! out = Some (Store.VRef <$> (acc ++ ls)) ∧
      (∀ l, l ≠ out → is_Some (hk !! l) → h' !! l = hk !! l) ∧
      Forall2 (λ l c, l ≠ out ∧ h' !! l = Some c) ls cs.
Proof.
  intros Hfree. induction 1 as [|x c xs cs Hx _ IH]; intros hk acc Hsub Hout.
  { exists [], hk. by rewrite app_nil_r. }
  destruct (Hx hk Hsub) as (l & He & Hl).
  assert (l ≠ out) as Hne by congruence.
  set (hk1 := <[l := c]> hk).
  set (hk2 := <[out := (Store.VRef <$> acc) ++ [Store.VRef l]]> hk1).
  assert (hk1 !! out = Some (Store.VRef <$> acc)) as Hout1.
  { unfold hk1. by rewrite lookup_insert_ne. }
  destruct (IH hk2 (acc ++ [l])) as (ls & h' & Hrun & Hout' & Hpres & Hls).
  { apply insert_subseteq_r; [done|]. etrans; [done|]. by apply insert_subseteq. }
  { unfold hk2. by rewrite lookup_insert_eq, fmap_app. }
  assert (h' !! l = Some c) as Hl'.
  { rewrite Hpres; [|done|].
    - unfold hk2, hk1. by rewrite lookup_insert_ne, lookup_insert_eq.
    - unfold hk2, hk1. rewrite lookup_insert_ne, lookup_insert_eq by done. eauto. }
  exists (l :: ls), h'. split_and!.
  - simpl. erewrite run_bind; [exact Hrun|].
    erewrite run_bind by exact He. simpl. fold hk1. by rewrite Hout1.
  - by rewrite Hout', <-app_assoc.
  - intros l0 Hl0 Hsome. assert (l0 ≠ l) by (intros ->; rewrite Hl in Hsome; by destruct Hsome).
    rewrite Hpres; [|done|].
    + unfold hk2, hk1. by rewrite !lookup_insert_ne.
    + unfold hk2, hk1. by rewrite !lookup_insert_ne.
  - by constructor.
Qed.

Lemma list_comp_spec {A} h (e : A → Store.M Store.value)
    (xs : list A) (cs : list (list Store.value)) :
  Forall2 (builds h e) xs cs →
  ∃ out ls h',
    Store.list_comp e xs h = Some (Store.VRef out, h') ∧
    h !! out = None ∧ h ⊆ h' ∧
    h' !! out = Some (Store.VRef <$> ls) ∧
    Forall2 (λ l c, h' !! l = Some c) ls cs.
Proof.
  intros He. destruct (alloc_fresh h []) as (out & Halloc & Hout%not_elem_of_dom & Hsub).
  destruct (for_each_append h e out xs cs Hout He (<[out := []]> h) [])
    as (ls & h' & Hrun & Hout' & Hpres & Hls); [done|by rewrite lookup_insert_eq|].
  exists out, ls, h'. split_and!; [|done| |done|].
  - unfold Store.list_comp. erewrite run_bind by exact Halloc.
    by erewrite run_bind by exact Hrun.
  - apply map_subseteq_spec. intros l xs' Hl.
    assert (l ≠ out) by congruence.
    rewrite Hpres; [|done|]; by rewrite lookup_insert_ne; eauto.
  - eapply Forall2_impl; [done|]. by intros l c [_ ?].
Qed.

Lemma slice_rev_builds h l (row : list Z) :
  h !! l = Some (Store.VInt <$> row) →
  builds h Store.slice_rev (Store.VRef l) (Store.VInt <$> reverse row).
Proof.
  intros Hl hk Hsub.
  destruct (alloc_fresh hk (reverse (Store.VInt <$> row))) as (l' & Ha & Hf & _).
  exists l'. split; [|by apply not_elem_of_dom].
  unfold Store.slice_rev, Py.slice_rev.
  erewrite run_bind by (apply run_items; by eapply lookup_weaken).
  by rewrite fmap_reverse.
Qed.

Lemma list_of_builds h (t : list Store.value) : builds h Store.list_of t t.
Proof.
  intros hk _. destruct (alloc_fresh hk t) as (l' & Ha & Hf & _).
  exists l'. split; [done|by apply not_elem_of_dom].
Qed.

Lemma built_grid h out ls g :
  h !! out = Some (Store.VRef <$> ls) →
  Forall2 (λ l c, h !! l = Some c) ls (fmap (M:=list) Store.VInt <$> g) →
  is_grid h (Store.VRef out) g.
Proof.
  intros Hout Hls. exists out, ls. split_and!; [done..|].
  by apply Forall2_fmap_r in Hls.
Qed.


Lemma fresh_rep_result f F : fresh_rep f F → Store.fresh_result f F.
Proof.
  intros Hf h m g Hg%read_grid_Some.
  destruct (Hf h m g Hg) as (r & h' & Hrun & Hr & Hsub & Hres).
  exists r, h'. split_and!; [done| | |done|..].
  - by apply not_elem_of_dom.
  - intros <-. apply is_grid_live, elem_of_dom in Hg as [? Hg]. congruence.
  - by eapply read_grid_Some, is_grid_weaken.
  - by apply read_grid_Some.
Qed.

Lemma fresh_rep_compose f1 F1 f2 F2 :
  fresh_rep f1 F1 → fresh_rep f2 F2 →
  fresh_rep (λ m, Store.bind (f1 m) f2) (λ g, F2 (F1 g)).
Proof.
  intros H1 H2 h m g Hg.
  destruct (H1 h m g Hg) as (r1 & h1 & Hrun1 & Hr1 & Hsub1 & Hres1).
  destruct (H2 h1 _ _ Hres1) as (r2 & h2 & Hrun2 & Hr2 & Hsub2 & Hres2).
  exists r2, h2. split_and!; [|..|done].
  - by erewrite run_bind by exact Hrun1.
  - destruct (h !! r2) as [xs|] eqn:E; [|done].
    by rewrite (lookup_weaken _ _ _ _ E Hsub1) in Hr2.
  - by etrans.
Qed.

Lemma transpose_rep : fresh_rep Store.transpose transpose.
Proof.
  intros h m g (l & ls & -> & Hl & Hrows).
  destruct (list_comp_spec h Store.list_of
              (fmap (M:=list) Store.VInt <$> Py.zip_star g)
              (fmap (M:=list) Store.VInt <$> Py.zip_star g))
    as (out & ls' & h' & Hrun & Hout & Hsub & Hout' & Hls').
  { apply Forall_Forall2_diag, Forall_forall. intros t _. apply list_of_builds. }
  exists out, h'. split_and!; [|done..|].
  - unfold Store.transpose, Store.zip_star.
    erewrite run_bind; [exact Hrun|].
    erewrite run_bind by by apply run_items.
    erewrite run_bind by by apply map_m_items.
    unfold Store.ret. by rewrite zip_star_fmap.
  - rewrite transpose_zip_star. by eapply built_grid.
Qed.

Lemma reverse_row_rep : fresh_rep Store.reverse_row reverse_row.
Proof.
  intros h m g (l & ls & -> & Hl & Hrows).
  destruct (alloc_fresh h (reverse (Store.VRef <$> ls))) as (r & Ha & Hr%not_elem_of_dom & Hsub).
  exists r, (<[r := reverse (Store.VRef <$> ls)]> h). split_and!; [|done..|].
  - unfold Store.reverse_row, Store.slice_rev, Py.slice_rev.
    by erewrite run_bind by by apply run_items.
  - exists r, (reverse ls). split_and!; [done|..].
    + by rewrite lookup_insert_eq, fmap_reverse.
    + apply Forall2_reverse. eapply Forall2_impl; [done|].
      intros l' row Hrow. simpl in Hrow. by eapply lookup_weaken.
Qed.

Lemma reverse_column_rep : fresh_rep Store.reverse_column reverse_column.
Proof.
  intros h m g (l & ls & -> & Hl & Hrows).
  destruct (list_comp_spec h Store.slice_rev (Store.VRef <$> ls)
              (fmap (M:=list) Store.VInt <$> reverse_column g))
    as (out & ls' & h' & Hrun & Hout & Hsub & Hout' & Hls').
  { unfold reverse_column, Py.slice_rev. rewrite <-list_fmap_compose.
    apply Forall2_fmap. eapply Forall2_impl; [done|].
    intros l' row Hrow. by apply slice_rev_builds. }
  exists out, h'. split_and!; [|done..|].
  - unfold Store.reverse_column. by erewrite run_bind by by apply run_items.
  - by eapply built_grid.
Qed.

Lemma rotate_90_rep : fresh_rep Store.rotate_90 rotate_90.
Proof. apply (fresh_rep_compose _ _ _ _ transpose_rep reverse_row_rep). Qed.

Lemma rotate_180_rep : fresh_rep Store.rotate_180 rotate_180.
Proof. apply (fresh_rep_compose _ _ _ _ reverse_column_rep reverse_row_rep). Qed.

Lemma rotate_270_rep : fresh_rep Store.rotate_270 rotate_270.
Proof. apply (fresh_rep_compose _ _ _ _ transpose_rep reverse_column_rep). Qed.

End store.

Lemma fresh_rep_returns f F (g : grid) : fresh_rep f F → Store.returns f g (F g).
Proof.
  intros Hf h m Hg%read_grid_Some.
  destruct (Hf h m g Hg) as (r & h' & Hrun & _ & _ & Hres).
  exists (Store.VRef r), h'. split; [done|]. by apply read_grid_Some.
Qed.

(** ** Rows of unequal length *)

Lemma jagged_nonempty (m : grid) : jagged m → m ≠ [].
Proof. intros Hj ->. by apply Exists_nil in Hj. Qed.

Lemma transpose_shape_truncated (m : grid) :
  m ≠ [] → shape (min_row_length m) (length m) (transpose m).
Proof.
  intros Hne. split; [by apply transpose_length|apply transpose_row_length].
Qed.

Lemma transpose_cell_kept (m : grid) (i j : nat) :
  m ≠ [] → i < min_row_length m → cell (transpose m) i j = cell m j i.
Proof.
  intros Hne Hi. rewrite <-(transpose_length m Hne) in Hi.
  apply lookup_lt_is_Some in Hi as [t Ht]. unfold cell. rewrite Ht. simpl.
  rewrite transpose_lookup in Ht by done.
  by apply mapM_lookup_transposed.
Qed.

(** ** The contract of the module *)

(** C1: for every rectangular grid [m] (at least one row and one column, all
    rows of one length), two quarter turns are the half turn:
    [rotate_90 (rotate_90 m) = rotate_180 m]. *)
Theorem rotate_90_twice_is_rotate_180 (m : grid) :
  rectangular m → rotate_90 (rotate_90 m) = rotate_180 m.
Proof.
  intros (_ & HC & Hm)%rectangular_shape. by eapply rotate_90_twice_shape.
Qed.

Lemma rotate_90_twice_is_rotate_180_witness :
  rectangular [[1;2;3];[4;5;6]]%Z ∧
  rotate_90 (rotate_90 [[1;2;3];[4;5;6]]%Z) = rotate_180 [[1;2;3];[4;5;6]]%Z.
Proof.
  assert (rectangular [[1;2;3];[4;5;6]]%Z) as H by (repeat constructor).
  split; [exact H|]. exact (rotate_90_twice_is_rotate_180 _ H).
Defined.

(** C2: for every rectangular grid [m], square or not, four quarter turns
    give back [m] itself, the same rows with the same values; on the way the
    shape alternates between that of [m] and its transposed shape. *)
Theorem rotate_90_four_times (m : grid) :
  rectangular m →
  shape (cols m) (rows m) (rotate_90 m) ∧
  shape (rows m) (cols m) (rotate_90 (rotate_90 m)) ∧
  shape (cols m) (rows m) (rotate_90 (rotate_90 (rotate_90 m))) ∧
  rotate_90 (rotate_90 (rotate_90 (rotate_90 m))) = m.
Proof.
  intros (HR & HC & Hm)%rectangular_shape.
  pose proof (rotate_90_shape _ _ _ HR Hm) as H1.
  pose proof (rotate_90_shape _ _ _ HC H1) as H2.
  pose proof (rotate_90_shape _ _ _ HR H2) as H3.
  split_and!; [done..|]. by eapply rotate_90_four_shape.
Qed.

Lemma rotate_90_four_times_witness :
  rectangular [[1;2;3];[4;5;6]]%Z ∧
  shape 3 2 (rotate_90 [[1;2;3];[4;5;6]]%Z) ∧
  rotate_90 (rotate_90 (rotate_90 (rotate_90 [[1;2;3];[4;5;6]]%Z)))
  = [[1;2;3];[4;5;6]]%Z.
Proof.
  assert (rectangular [[1;2;3];[4;5;6]]%Z) as H by (repeat constructor).
  destruct (rotate_90_four_times _ H) as (H1 & _ & _ & H4).
  split_and!; [exact H|exact H1|exact H4].
Defined.

(** C3: on a grid of [R] rows and [C] columns, both at least 1, [transpose]
    returns a grid of [C] rows and [R] columns whose cell [(i, j)] is the
    cell [(j, i)] of the input, for every [i < C] and [j < R]; and
    [transpose [[1,2,3],[4,5,6]]] is [[[1,4],[2,5],[3,6]]]. *)
Theorem transpose_contract :
  (∀ (R C : nat) (m : grid),
     1 ≤ R → 1 ≤ C → shape R C m →
     shape C R (transpose m) ∧
     ∀ i j, i < C → j < R →
       ∃ v, cell m j i = Some v ∧ cell (transpose m) i j = Some v) ∧
  transpose [[1;2;3];[4;5;6]]%Z = [[1;4];[2;5];[3;6]]%Z.
Proof.
  split; [|done]. intros R C m HR HC Hm. split.
  - by apply transpose_shape.
  - intros i j Hi Hj. by apply (transpose_cell R C).
Qed.

Lemma transpose_contract_witness :
  shape 3 2 (transpose [[1;2;3];[4;5;6]]%Z) ∧
  ∃ v, cell [[1;2;3];[4;5;6]]%Z 1 2 = Some v ∧
       cell (transpose [[1;2;3];[4;5;6]]%Z) 2 1 = Some v.
Proof.
  assert (shape 2 3 [[1;2;3];[4;5;6]]%Z) as H by (repeat constructor).
  destruct (proj1 transpose_contract 2 3 _ (le_S _ _ (le_n 1)) (le_S _ _ (le_S _ _ (le_n 1))) H)
    as [Hs Hc].
  split; [exact Hs|]. apply Hc; repeat constructor.
Defined.

(** C4: for every integer [row_size], with [n] its absolute value, or 4 when
    that is zero, [make_matrix row_size] is a grid of [n] rows and [n]
    columns whose cell at row [y], column [x] is [1 + x + y * n]; the sign of
    the argument is irrelevant, and 0 gives the grid of 4.  The function is
    total: there is no input on which it has no value. *)
Theorem make_matrix_contract (row_size : Z) :
  shape (Z.to_nat (side row_size)) (Z.to_nat (side row_size))
    (make_matrix row_size) ∧
  (∀ x y : nat,
     (Z.of_nat x < side row_size)%Z → (Z.of_nat y < side row_size)%Z →
     cell (make_matrix row_size) y x
     = Some (1 + Z.of_nat x + Z.of_nat y * side row_size)%Z) ∧
  make_matrix row_size = make_matrix (- row_size) ∧
  make_matrix 0 = make_matrix 4.
Proof.
  split_and!.
  - apply make_matrix_shape.
  - intros x y. apply make_matrix_cell.
  - apply make_matrix_opp.
  - done.
Qed.

Lemma make_matrix_contract_witness :
  cell (make_matrix (-3)) 2 1 = Some 8%Z.
Proof.
  destruct (make_matrix_contract (-3)) as (_ & Hc & _).
  exact (Hc 1 2 eq_refl eq_refl).
Defined.

(** C5: [rotate_270 m] is three successive quarter turns of [m], for every
    rectangular grid [m] (and indeed for every list of rows); and
    [rotate_270 [[1,2,3],[4,5,6]]] is [[[4,1],[5,2],[6,3]]]. *)
Theorem rotate_270_is_three_rotate_90 :
  (∀ m : grid, rotate_270 m = rotate_90 (rotate_90 (rotate_90 m))) ∧
  rotate_270 [[1;2;3];[4;5;6]]%Z = [[4;1];[5;2];[6;3]]%Z.
Proof. split; [|done]. intros m. symmetry. apply rotate_90_thrice. Qed.

(** C6: [transpose] is an involution on rectangular grids. *)
Theorem transpose_is_involution (m : grid) :
  rectangular m → transpose (transpose m) = m.
Proof. apply transpose_involutive. Qed.

Lemma transpose_is_involution_witness :
  rectangular [[1;2;3];[4;5;6]]%Z ∧
  transpose (transpose [[1;2;3];[4;5;6]]%Z) = [[1;2;3];[4;5;6]]%Z.
Proof.
  assert (rectangular [[1;2;3];[4;5;6]]%Z) as H by (repeat constructor).
  split; [exact H|]. exact (transpose_is_involution _ H).
Defined.

(** C7: [reverse_row] and [reverse_column] are involutions, on every
    rectangular grid (and on every list of rows). *)
Theorem reverse_row_column_involutions (m : grid) :
  reverse_row (reverse_row m) = m ∧ reverse_column (reverse_column m) = m.
Proof.
  split; [apply reverse_row_involutive|apply reverse_column_involutive].
Qed.

(** C8: no operation mutates its argument.  Called on a list object [m] that
    spells out a grid [g], each of [transpose], [reverse_row],
    [reverse_column], [rotate_90], [rotate_180] and [rotate_270] returns;
    every object that was live at the call, [m] and its rows among them, has
    the items it had; and the result is an object that was not live at the
    call, hence distinct from [m], which spells out the rotated grid. *)
Theorem no_operation_mutates_its_argument :
  Store.fresh_result Store.transpose transpose ∧
  Store.fresh_result Store.reverse_row reverse_row ∧
  Store.fresh_result Store.reverse_column reverse_column ∧
  Store.fresh_result Store.rotate_90 rotate_90 ∧
  Store.fresh_result Store.rotate_180 rotate_180 ∧
  Store.fresh_result Store.rotate_270 rotate_270.
Proof.
  split_and!; apply fresh_rep_result.
  - apply transpose_rep.
  - apply reverse_row_rep.
  - apply reverse_column_rep.
  - apply rotate_90_rep.
  - apply rotate_180_rep.
  - apply rotate_270_rep.
Qed.

Lemma no_operation_mutates_its_argument_witness :
  Store.read_grid Store.example_heap (Store.VRef 1) = Some [[1;2;3];[4;5;6]]%Z ∧
  ∃ r h',
    Store.rotate_90 (Store.VRef 1) Store.example_heap = Some (Store.VRef r, h') ∧
    (r ∉ dom Store.example_heap) ∧ Store.VRef r ≠ Store.VRef 1 ∧
    Store.example_heap ⊆ h' ∧
    Store.read_grid h' (Store.VRef 1) = Some [[1;2;3];[4;5;6]]%Z ∧
    Store.read_grid h' (Store.VRef r) = Some (rotate_90 [[1;2;3];[4;5;6]]%Z).
Proof.
  assert (Store.read_grid Store.example_heap (Store.VRef 1)
          = Some [[1;2;3];[4;5;6]]%Z) as H by (vm_compute; reflexivity).
  split; [exact H|].
  destruct no_operation_mutates_its_argument as (_ & _ & _ & H90 & _).
  exact (H90 _ _ _ H).
Defined.

(** C9: on the empty grid every operation returns the empty grid, and the
    call raises nothing. *)
Theorem empty_grid_operations :
  (transpose [] = [] ∧ Store.returns Store.transpose [] []) ∧
  (reverse_row [] = [] ∧ Store.returns Store.reverse_row [] []) ∧
  (reverse_column [] = [] ∧ Store.returns Store.reverse_column [] []) ∧
  (rotate_90 [] = [] ∧ Store.returns Store.rotate_90 [] []) ∧
  (rotate_180 [] = [] ∧ Store.returns Store.rotate_180 [] []) ∧
  (rotate_270 [] = [] ∧ Store.returns Store.rotate_270 [] []).
Proof.
  split_and!; try done.
  - apply (fresh_rep_returns _ _ [] transpose_rep).
  - apply (fresh_rep_returns _ _ [] reverse_row_rep).
  - apply (fresh_rep_returns _ _ [] reverse_column_rep).
  - apply (fresh_rep_returns _ _ [] rotate_90_rep).
  - apply (fresh_rep_returns _ _ [] rotate_180_rep).
  - apply (fresh_rep_returns _ _ [] rotate_270_rep).
Qed.

Lemma empty_grid_operations_witness :
  Store.read_grid {[ 1%positive := [] ]} (Store.VRef 1) = Some [] ∧
  ∃ r h',
    Store.rotate_270 (Store.VRef 1) {[ 1%positive := [] ]} = Some (r, h') ∧
    Store.read_grid h' r = Some [].
Proof.
  assert (Store.read_grid {[ 1%positive := [] ]} (Store.VRef 1) = Some [])
    as H by (vm_compute; reflexivity).
  split; [exact H|].
  destruct empty_grid_operations as (_ & _ & _ & _ & _ & _ & H270).
  exact (H270 _ _ H).
Defined.

(** C10: on rows of unequal length [transpose] raises nothing and truncates:
    its result has as many rows as the shortest input row has elements, each
    with one element per input row, taken from the leading columns of the
    input; [rotate_90] and [rotate_270] return grids of that truncated shape
    as well, without raising. *)
Theorem jagged_input_is_truncated (m : grid) :
  jagged m →
  (shape (min_row_length m) (length m) (transpose m) ∧
   (∀ i j, i < min_row_length m → cell (transpose m) i j = cell m j i) ∧
   Store.returns Store.transpose m (transpose m)) ∧
  (shape (min_row_length m) (length m) (rotate_90 m) ∧
   Store.returns Store.rotate_90 m (rotate_90 m)) ∧
  (shape (min_row_length m) (length m) (rotate_270 m) ∧
   Store.returns Store.rotate_270 m (rotate_270 m)).
Proof.
  intros Hne%jagged_nonempty.
  pose proof (transpose_shape_truncated m Hne) as Hs.
  split_and!.
  - done.
  - intros i j. by apply transpose_cell_kept.
  - apply (fresh_rep_returns _ _ m transpose_rep).
  - by apply reverse_row_shape.
  - apply (fresh_rep_returns _ _ m rotate_90_rep).
  - by apply reverse_column_shape.
  - apply (fresh_rep_returns _ _ m rotate_270_rep).
Qed.

Lemma jagged_input_is_truncated_witness :
  jagged [[1;2;3];[4];[5;6]]%Z ∧
  shape 1 3 (transpose [[1;2;3];[4];[5;6]]%Z) ∧
  shape 1 3 (rotate_90 [[1;2;3];[4];[5;6]]%Z) ∧
  shape 1 3 (rotate_270 [[1;2;3];[4];[5;6]]%Z).
Proof.
  assert (jagged [[1;2;3];[4];[5;6]]%Z) as H.
  { apply Exists_cons_tl, Exists_cons_hd. discriminate. }
  split; [exact H|].
  destruct (jagged_input_is_truncated _ H) as ((Ht & _) & (H90 & _) & (H270 & _)).
  split_and!; [exact Ht|exact H90|exact H270].
Defined.

(** * Further properties of the module *)

(** ** What each operation does to a cell *)

Lemma cell_reverse_row (m : grid) (i j : nat) :
  i < length m → cell (reverse_row m) i j = cell m (length m - S i) j.
Proof.
  intros Hi. unfold cell, reverse_row, Py.slice_rev. by rewrite reverse_lookup.
Qed.

Lemma cell_reverse_column (R C : nat) (m : grid) (i j : nat) :
  shape R C m → j < C → cell (reverse_column m) i j = cell m i (C - S j).
Proof.
  intros [_ HC] Hj. unfold cell, reverse_column, Py.slice_rev.
  rewrite list_lookup_fmap. destruct (m !! i) as [row|] eqn:Hrow; [simpl|done].
  rewrite Forall_lookup in HC. rewrite <-(HC _ _ Hrow) in *.
  by apply reverse_lookup.
Qed.

(** X1: the two flips keep the shape; [reverse_row] puts row [R-1-i] of the
    input at row [i], and [reverse_column] puts the element [C-1-j] of each
    row at position [j]. *)
Theorem flips_cells (R C : nat) (m : grid) :
  shape R C m →
  (shape R C (reverse_row m) ∧
   ∀ i, i < R → reverse_row m !! i = m !! (R - 1 - i)) ∧
  (shape R C (reverse_column m) ∧
   ∀ i j, i < R → j < C →
     ∃ v, cell m i (C - 1 - j) = Some v ∧ cell (reverse_column m) i j = Some v).
Proof.
  intros Hm. pose proof Hm as [HR _]. split_and!.
  - by apply reverse_row_shape.
  - intros i Hi. unfold reverse_row, Py.slice_rev.
    rewrite reverse_lookup by lia. f_equal. lia.
  - by apply reverse_column_shape.
  - intros i j Hi Hj.
    destruct (shape_cell_is_Some R C m i (C - 1 - j)) as [v Hv]; [done|lia..|].
    exists v. split; [done|].
    rewrite (cell_reverse_column R C) by done. rewrite <-Hv. f_equal. lia.
Qed.

Lemma flips_cells_witness :
  shape 2 3 [[1;2;3];[4;5;6]]%Z ∧
  reverse_row [[1;2;3];[4;5;6]]%Z !! 0 = [[1;2;3];[4;5;6]]%Z !! 1.
Proof.
  assert (shape 2 3 [[1;2;3];[4;5;6]]%Z) as H by (repeat constructor).
  split; [exact H|].
  destruct (flips_cells 2 3 _ H) as ((_ & Hr) & _).
  apply (Hr 0). repeat constructor.
Defined.

(** X2: [rotate_90] is the quarter turn counterclockwise: on [R] rows of [C]
    columns it returns [C] rows of [R] columns whose cell [(i, j)] is the
    cell [(j, C-1-i)] of the input. *)
Theorem rotate_90_cells (R C : nat) (m : grid) :
  1 ≤ R → shape R C m →
  shape C R (rotate_90 m) ∧
  ∀ i j, i < C → j < R →
    ∃ v, cell m j (C - 1 - i) = Some v ∧ cell (rotate_90 m) i j = Some v.
Proof.
  intros HR Hm. pose proof (transpose_shape R C m HR Hm) as [HlenT HrowsT].
  split; [by apply rotate_90_shape|]. intros i j Hi Hj.
  destruct (transpose_cell R C m (C - 1 - i) j) as (v & Hv & HTv); [done..|lia|done|].
  exists v. split; [done|]. unfold rotate_90.
  rewrite cell_reverse_row by lia. rewrite HlenT, <-HTv. f_equal. lia.
Qed.

Lemma rotate_90_cells_witness :
  shape 3 2 (rotate_90 [[1;2;3];[4;5;6]]%Z) ∧
  ∃ v, cell [[1;2;3];[4;5;6]]%Z 1 2 = Some v ∧
       cell (rotate_90 [[1;2;3];[4;5;6]]%Z) 0 1 = Some v.
Proof.
  assert (shape 2 3 [[1;2;3];[4;5;6]]%Z) as H by (repeat constructor).
  destruct (rotate_90_cells 2 3 _ (le_S _ _ (le_n 1)) H) as [Hs Hc].
  split; [exact Hs|]. apply (Hc 0 1); repeat constructor.
Defined.

(** X3: [rotate_180] is the half turn: it keeps the shape, and its cell
    [(i, j)] is the cell [(R-1-i, C-1-j)] of the input. *)
Theorem rotate_180_cells (R C : nat) (m : grid) :
  shape R C m →
  shape R C (rotate_180 m) ∧
  ∀ i j, i < R → j < C →
    ∃ v, cell m (R - 1 - i) (C - 1 - j) = Some v ∧
         cell (rotate_180 m) i j = Some v.
Proof.
  intros Hm. pose proof Hm as [HR _].
  pose proof (reverse_column_shape R C m Hm) as [HR' _].
  split; [by apply rotate_180_shape|]. intros i j Hi Hj.
  destruct (shape_cell_is_Some R C m (R - 1 - i) (C - 1 - j)) as [v Hv]; [done|lia..|].
  exists v. split; [done|]. unfold rotate_180.
  rewrite cell_reverse_row by lia.
  rewrite (cell_reverse_column R C) by done. rewrite HR', <-Hv. f_equal; lia.
Qed.

Lemma rotate_180_cells_witness :
  shape 2 3 (rotate_180 [[1;2;3];[4;5;6]]%Z) ∧
  ∃ v, cell [[1;2;3];[4;5;6]]%Z 1 2 = Some v ∧
       cell (rotate_180 [[1;2;3];[4;5;6]]%Z) 0 0 = Some v.
Proof.
  assert (shape 2 3 [[1;2;3];[4;5;6]]%Z) as H by (repeat constructor).
  destruct (rotate_180_cells 2 3 _ H) as [Hs Hc].
  split; [exact Hs|]. apply (Hc 0 0); repeat constructor.
Defined.

(** X4: [rotate_270] is the quarter turn clockwise: on [R] rows of [C]
    columns it returns [C] rows of [R] columns whose cell [(i, j)] is the
    cell [(R-1-j, i)] of the input. *)
Theorem rotate_270_cells (R C : nat) (m : grid) :
  1 ≤ R → shape R C m →
  shape C R (rotate_270 m) ∧
  ∀ i j, i < C → j < R →
    ∃ v, cell m (R - 1 - j) i = Some v ∧ cell (rotate_270 m) i j = Some v.
Proof.
  intros HR Hm. pose proof (transpose_shape R C m HR Hm) as HT.
  split; [by apply rotate_270_shape|]. intros i j Hi Hj.
  destruct (transpose_cell R C m i (R - 1 - j)) as (v & Hv & HTv); [done..|lia|].
  exists v. split; [done|]. unfold rotate_270.
  rewrite (cell_reverse_column C R) by done. rewrite <-HTv. f_equal. lia.
Qed.

Lemma rotate_270_cells_witness :
  shape 3 2 (rotate_270 [[1;2;3];[4;5;6]]%Z) ∧
  ∃ v, cell [[1;2;3];[4;5;6]]%Z 1 0 = Some v ∧
       cell (rotate_270 [[1;2;3];[4;5;6]]%Z) 0 0 = Some v.
Proof.
  assert (shape 2 3 [[1;2;3];[4;5;6]]%Z) as H by (repeat constructor).
  destruct (rotate_270_cells 2 3 _ (le_S _ _ (le_n 1)) H) as [Hs Hc].
  split; [exact Hs|]. apply (Hc 0 0); repeat constructor.
Defined.

(** ** How the operations compose *)

Lemma rotate_90_rectangular (m : grid) : rectangular m → rectangular (rotate_90 m).
Proof.
  intros (HR & HC & Hm)%rectangular_shape.
  eapply (shape_rectangular (cols m) (rows m)); [done..|]. by apply rotate_90_shape.
Qed.

Lemma rotate_180_as_rotate_90 (m : grid) :
  rectangular m → rotate_180 m = rotate_90 (rotate_90 m).
Proof.
  intros (_ & HC & Hm)%rectangular_shape. symmetry. by eapply rotate_90_twice_shape.
Qed.

Lemma rotate_90_four_rectangular (m : grid) :
  rectangular m → rotate_90 (rotate_90 (rotate_90 (rotate_90 m))) = m.
Proof.
  intros (_ & HC & Hm)%rectangular_shape. by eapply rotate_90_four_shape.
Qed.

(** X5: on a rectangular grid the rotations compose as their angles add up,
    modulo a full turn; in particular [rotate_90] and [rotate_270] undo each
    other. *)
Theorem rotations_compose (m : grid) :
  rectangular m →
  rotate_270 (rotate_90 m) = m ∧
  rotate_90 (rotate_270 m) = m ∧
  rotate_90 (rotate_180 m) = rotate_270 m ∧
  rotate_180 (rotate_90 m) = rotate_270 m ∧
  rotate_180 (rotate_270 m) = rotate_90 m ∧
  rotate_270 (rotate_180 m) = rotate_90 m ∧
  rotate_270 (rotate_270 m) = rotate_180 m.
Proof.
  intros Hm.
  pose proof (rotate_90_rectangular _ Hm) as Hm1.
  pose proof (rotate_90_rectangular _ Hm1) as Hm2.
  pose proof (rotate_90_rectangular _ Hm2) as Hm3.
  pose proof (rotate_90_four_rectangular _ Hm) as H4.
  rewrite <-!rotate_90_thrice, (rotate_180_as_rotate_90 m Hm).
  rewrite (rotate_180_as_rotate_90 _ Hm1), (rotate_180_as_rotate_90 _ Hm3).
  rewrite !H4. done.
Qed.

Lemma rotations_compose_witness :
  rectangular [[1;2;3];[4;5;6]]%Z ∧
  rotate_270 (rotate_90 [[1;2;3];[4;5;6]]%Z) = [[1;2;3];[4;5;6]]%Z.
Proof.
  assert (rectangular [[1;2;3];[4;5;6]]%Z) as H by (repeat constructor).
  split; [exact H|]. exact (proj1 (rotations_compose _ H)).
Defined.

(** X6: on every list of rows, of whatever lengths, the two flips commute and
    [rotate_180] undoes itself. *)
Theorem rotate_180_involution (m : grid) :
  reverse_row (reverse_column m) = reverse_column (reverse_row m) ∧
  rotate_180 (rotate_180 m) = m.
Proof. split; [apply reverse_row_column|apply rotate_180_involutive]. Qed.




(** With rows of unequal length the second equation fails: the truncation
    keeps the leading columns, which reversing the rows changes. *)
Example ex_transpose_reverse_column_jagged :
  transpose (reverse_column [[1;2];[3]]%Z) = [[2;3]]%Z ∧
  reverse_row (transpose [[1;2];[3]]%Z) = [[1;3]]%Z.
Proof. split; reflexivity. Qed.

(** ** The values a grid holds *)

Lemma make_matrix_row (n y : Z) :
  (λ x, 1 + x + y * n)%Z <$> Py.range n = seqZ (1 + y * n) n.
Proof.
  unfold Py.range. trans (Z.add (1 + y * n) <$> seqZ 0 n).
  - apply list_fmap_ext. intros _ x _. lia.
  - rewrite fmap_add_seqZ. f_equal. lia.
Qed.

Lemma join_seqZ_rows (n : Z) (a : nat) :
  (0 ≤ n)%Z →
  mjoin ((λ y, seqZ (1 + y * n) n) <$> seqZ 0 (Z.of_nat a))
  = seqZ 1 (Z.of_nat a * n).
Proof.
  intros Hn. induction a as [|a IH]; [done|].
  rewrite seqZ_S, fmap_app, join_app, IH. simpl. rewrite app_nil_r.
  replace (Z.of_nat (S a) * n)%Z with (Z.of_nat a * n + n)%Z by lia.
  rewrite seqZ_app by lia. by rewrite Z.add_0_l.
Qed.

Lemma make_matrix_values (row_size : Z) :
  values (make_matrix row_size) = seqZ 1 (side row_size * side row_size).
Proof.
  unfold values, make_matrix. rewrite int_or_abs.
  pose proof (side_pos row_size) as Hn.
  erewrite list_fmap_ext; [|intros _ y _; apply make_matrix_row].
  unfold Py.range.
  pose proof (join_seqZ_rows (side row_size) (Z.to_nat (side row_size))) as H.
  rewrite Z2Nat.id in H by lia. apply H. lia.
Qed.

(** X8: the grid of [make_matrix] holds the sequential integers 1, 2, ...,
    n*n in row-major order, [n] being the side; every integer of that range
    occurs exactly once. *)
Theorem make_matrix_sequential (row_size : Z) :
  values (make_matrix row_size) = seqZ 1 (side row_size * side row_size) ∧
  NoDup (values (make_matrix row_size)).
Proof.
  split; [apply make_matrix_values|].
  rewrite make_matrix_values. apply NoDup_seqZ.
Qed.

Lemma values_reverse_column (m : grid) : values (reverse_column m) ≡ₚ values m.
Proof.
  unfold values, reverse_column, Py.slice_rev.
  induction m as [|r m IH]; [done|]. csimpl. by rewrite IH, reverse_Permutation.
Qed.

Lemma values_reverse_row (m : grid) : values (reverse_row m) ≡ₚ values m.
Proof.
  unfold values, reverse_row, Py.slice_rev. by rewrite reverse_Permutation.
Qed.

Lemma zip_next_values {A} (its : list (list A)) t rest :
  Py.zip_next its = Some (t, rest) → mjoin its ≡ₚ t ++ mjoin rest.
Proof.
  revert t rest. induction its as [|[|x it] its IH]; intros t rest; simpl.
  - by intros [= <- <-].
  - done.
  - destruct (Py.zip_next its) as [[t' rest']|]; [|done].
    intros [= <- <-]. simpl. rewrite (IH _ _ eq_refl).
    f_equiv. rewrite !app_assoc. f_equiv. apply Permutation_app_comm.
Qed.

Lemma zip_from_values {A} (it : list A) (its : list (list A)) :
  mjoin (Py.zip_from it its) ⊆+ mjoin (it :: its).
Proof.
  revert its. induction it as [|x it IH]; intros its; [apply submseteq_nil_l|].
  simpl. destruct (Py.zip_next its) as [[t rest]|] eqn:Hn; [|apply submseteq_nil_l].
  simpl. rewrite (zip_next_values _ _ _ Hn). constructor.
  etrans; [apply submseteq_skips_l, IH|]. simpl.
  rewrite !app_assoc. apply submseteq_app; [|done].
  apply Permutation_submseteq, Permutation_app_comm.
Qed.

Lemma values_transpose (m : grid) : values (transpose m) ⊆+ values m.
Proof.
  rewrite transpose_zip_star. unfold values. destruct m as [|r m]; [done|].
  apply zip_from_values.
Qed.

Lemma length_values_shape (R C : nat) (m : grid) :
  shape R C m → length (values m) = R * C.
Proof.
  intros [<- HC]. unfold values. induction HC as [|r m Hr _ IH]; [done|].
  simpl. rewrite length_app. lia.
Qed.

Lemma values_transpose_shape (R C : nat) (m : grid) :
  shape R C m → values (transpose m) ≡ₚ values m.
Proof.
  intros Hm. destruct (decide (m = [])) as [->|Hne]; [done|].
  assert (1 ≤ R) by (destruct Hm as [<- _]; destruct m; simpl; [done|lia]).
  apply submseteq_length_Permutation; [apply values_transpose|].
  rewrite (length_values_shape R C m Hm).
  rewrite (length_values_shape C R (transpose m)) by by apply transpose_shape.
  lia.
Qed.

(** X9: no operation invents a value.  On every list of rows the flips and
    the half turn keep each value with its number of occurrences, and the
    transposition and the quarter turns return values of the input, none
    more often than the input has it. *)
Theorem values_never_invented (m : grid) :
  values (reverse_row m) ≡ₚ values m ∧
  values (reverse_column m) ≡ₚ values m ∧
  values (rotate_180 m) ≡ₚ values m ∧
  values (transpose m) ⊆+ values m ∧
  values (rotate_90 m) ⊆+ values m ∧
  values (rotate_270 m) ⊆+ values m.
Proof.
  split_and!.
  - apply values_reverse_row.
  - apply values_reverse_column.
  - unfold rotate_180. by rewrite values_reverse_row, values_reverse_column.
  - apply values_transpose.
  - unfold rotate_90. rewrite values_reverse_row. apply values_transpose.
  - unfold rotate_270. rewrite values_reverse_column. apply values_transpose.
Qed.

(** X10: when the rows have one length, the transposition and the quarter
    turns only move values: the result holds each value as often as the
    input does. *)
Theorem values_moved (R C : nat) (m : grid) :
  shape R C m →
  values (transpose m) ≡ₚ values m ∧
  values (rotate_90 m) ≡ₚ values m ∧
  values (rotate_270 m) ≡ₚ values m.
Proof.
  intros Hm. pose proof (values_transpose_shape R C m Hm) as HT. split_and!.
  - done.
  - unfold rotate_90. by rewrite values_reverse_row.
  - unfold rotate_270. by rewrite values_reverse_column.
Qed.

Lemma values_moved_witness :
  shape 2 3 [[1;2;3];[4;5;6]]%Z ∧
  values (rotate_90 [[1;2;3];[4;5;6]]%Z) ≡ₚ values [[1;2;3];[4;5;6]]%Z.
Proof.
  assert (shape 2 3 [[1;2;3];[4;5;6]]%Z) as H by (repeat constructor).
  split; [exact H|]. exact (proj1 (proj2 (values_moved 2 3 _ H))).
Defined.

(** X15: every rotation of the grid of [make_matrix] is again a square grid
    of the same side that holds each of 1, ..., n*n exactly once. *)
Theorem rotations_of_make_matrix (row_size : Z) :
  let n := Z.to_nat (side row_size) in
  let all := seqZ 1 (side row_size * side row_size) in
  (shape n n (rotate_90 (make_matrix row_size)) ∧
   values (rotate_90 (make_matrix row_size)) ≡ₚ all) ∧
  (shape n n (rotate_180 (make_matrix row_size)) ∧
   values (rotate_180 (make_matrix row_size)) ≡ₚ all) ∧
  (shape n n (rotate_270 (make_matrix row_size)) ∧
   values (rotate_270 (make_matrix row_size)) ≡ₚ all).
Proof.
  intros n all. unfold all. rewrite <-make_matrix_values.
  pose proof (make_matrix_shape row_size) as Hs. fold n in Hs.
  assert (1 ≤ n) by (pose proof (side_pos row_size); unfold n; lia).
  pose proof (values_transpose_shape n n _ Hs) as HT.
  split_and!.
  - by apply rotate_90_shape.
  - unfold rotate_90. by rewrite values_reverse_row.
  - by apply rotate_180_shape.
  - unfold rotate_180. by rewrite values_reverse_row, values_reverse_column.
  - by apply rotate_270_shape.
  - unfold rotate_270. by rewrite values_reverse_column.
Qed.

(** ** Which objects the results share with the arguments *)

Section sharing.
Implicit Types (h : Store.heap) (l out : Store.loc) (ls : list Store.loc).
Implicit Types (v m : Store.value) (g : grid).

(** The loop of a comprehension once more, keeping track of the objects it
    allocates: they are pairwise distinct and were not live when the loop
    started. *)
Lemma for_each_append_fresh {A} h (e : A → Store.M Store.value) out
    (xs : list A) (cs : list (list Store.value)) :
  h !! out = None →
  Forall2 (builds h e) xs cs →
  ∀ hk acc,
    h ⊆ hk → hk !! out = Some (Store.VRef <$> acc) →
    ∃ ls h',
      Store.for_each xs
        (λ x, Store.bind (e x) (Store.append (Store.VRef out))) hk
      = Some (tt, h') ∧
      h' !! out = Some (Store.VRef <$> (acc ++ ls)) ∧
      (∀ l, l ≠ out → is_Some (hk !! l) → h' !! l = hk !! l) ∧
      Forall2 (λ l c, h' !! l = Some c) ls cs ∧
      NoDup ls ∧ Forall (λ l, hk !! l = None) ls.
Proof.
  intros Hfree. induction 1 as [|x c xs cs Hx _ IH]; intros hk acc Hsub Hout.
  { exists [], hk. rewrite app_nil_r. split_and!; [done..|constructor|constructor]. }
  destruct (Hx hk Hsub) as (l & He & Hl).
  assert (l ≠ out) as Hne by congruence.
  set (hk1 := <[l := c]> hk).
  set (hk2 := <[out := (Store.VRef <$> acc) ++ [Store.VRef l]]> hk1).
  assert (hk1 !! out = Some (Store.VRef <$> acc)) as Hout1.
  { unfold hk1. by rewrite lookup_insert_ne. }
  assert (hk2 !! l = Some c) as Hl2.
  { unfold hk2, hk1. by rewrite lookup_insert_ne, lookup_insert_eq. }
  destruct (IH hk2 (acc ++ [l]))
    as (ls & h' & Hrun & Hout' & Hpres & Hls & Hnd & Hfr).
  { apply insert_subseteq_r; [done|]. etrans; [done|]. by apply insert_subseteq. }
  { unfold hk2. by rewrite lookup_insert_eq, fmap_app. }
  assert (∀ l', hk2 !! l' = None → hk !! l' = None ∧ l' ≠ l) as Hback.
  { intros l' Hl'. assert (l' ≠ l) by congruence. split; [|done].
    unfold hk2, hk1 in Hl'.
    destruct (decide (l' = out)) as [->|?]; [by rewrite lookup_insert_eq in Hl'|].
    by rewrite !lookup_insert_ne in Hl'. }
  exists (l :: ls), h'. split_and!.
  - simpl. erewrite run_bind; [exact Hrun|].
    erewrite run_bind by exact He. simpl. fold hk1. by rewrite Hout1.
  - by rewrite Hout', <-app_assoc.
  - intros l0 Hl0 Hsome.
    assert (l0 ≠ l) by (intros ->; rewrite Hl in Hsome; by destruct Hsome).
    rewrite Hpres; [|done|]; unfold hk2, hk1; by rewrite !lookup_insert_ne.
  - constructor; [|done]. rewrite Hpres; [done|done|by rewrite Hl2].
  - constructor; [|done]. intros Hin.
    rewrite Forall_forall in Hfr. by destruct (Hback l (Hfr l Hin)).
  - constructor; [done|]. eapply Forall_impl; [done|]. intros l' Hl'.
    by destruct (Hback l' Hl').
Qed.

Lemma list_comp_fresh {A} h (e : A → Store.M Store.value)
    (xs : list A) (cs : list (list Store.value)) :
  Forall2 (builds h e) xs cs →
  ∃ out ls h',
    Store.list_comp e xs h = Some (Store.VRef out, h') ∧
    h !! out = None ∧ h ⊆ h' ∧
    h' !! out = Some (Store.VRef <$> ls) ∧
    Forall2 (λ l c, h' !! l = Some c) ls cs ∧
    NoDup ls ∧ Forall (λ l, h !! l = None) ls.
Proof.
  intros He.
  destruct (alloc_fresh h []) as (out & Halloc & Hout%not_elem_of_dom & Hsub).
  destruct (for_each_append_fresh h e out xs cs Hout He (<[out := []]> h) [])
    as (ls & h' & Hrun & Hout' & Hpres & Hls & Hnd & Hfr);
    [done|by rewrite lookup_insert_eq|].
  exists out, ls, h'. split_and!; [|done| |done..|].
  - unfold Store.list_comp. erewrite run_bind by exact Halloc.
    by erewrite run_bind by exact Hrun.
  - apply map_subseteq_spec. intros l xs' Hl.
    assert (l ≠ out) by congruence.
    rewrite Hpres; [|done|]; by rewrite lookup_insert_ne; eauto.
  - eapply Forall_impl; [done|]. intros l Hl. simpl in Hl.
    destruct (decide (l = out)) as [->|?]; [done|].
    by rewrite lookup_insert_ne in Hl.
Qed.

Lemma run_reverse_row h l (xs : list Store.value) :
  h !! l = Some xs →
  ∃ r, Store.reverse_row (Store.VRef l) h
       = Some (Store.VRef r, <[r := reverse xs]> h) ∧ h !! r = None.
Proof.
  intros Hl. destruct (alloc_fresh h (reverse xs)) as (r & Ha & Hr%not_elem_of_dom & _).
  exists r. split; [|done].
  unfold Store.reverse_row, Store.slice_rev, Py.slice_rev.
  by erewrite run_bind by by apply run_items.
Qed.

Lemma transpose_rows_rep : rows_rep Store.transpose transpose.
Proof.
  intros h m g (l & ls & -> & Hl & Hrows).
  destruct (list_comp_fresh h Store.list_of
              (fmap (M:=list) Store.VInt <$> Py.zip_star g)
              (fmap (M:=list) Store.VInt <$> Py.zip_star g))
    as (out & ls' & h' & Hrun & Hout & Hsub & Hout' & Hls' & Hnd & Hfr).
  { apply Forall_Forall2_diag, Forall_forall. intros t _. apply list_of_builds. }
  exists out, ls', h'. split_and!; [|done..| |done|done].
  - unfold Store.transpose, Store.zip_star.
    erewrite run_bind; [exact Hrun|].
    erewrite run_bind by by apply run_items.
    erewrite run_bind by by apply map_m_items.
    unfold Store.ret. by rewrite zip_star_fmap.
  - rewrite transpose_zip_star. by apply Forall2_fmap_r in Hls'.
Qed.

Lemma reverse_column_rows_rep : rows_rep Store.reverse_column reverse_column.
Proof.
  intros h m g (l & ls & -> & Hl & Hrows).
  destruct (list_comp_fresh h Store.slice_rev (Store.VRef <$> ls)
              (fmap (M:=list) Store.VInt <$> reverse_column g))
    as (out & ls' & h' & Hrun & Hout & Hsub & Hout' & Hls' & Hnd & Hfr).
  { unfold reverse_column, Py.slice_rev. rewrite <-list_fmap_compose.
    apply Forall2_fmap. eapply Forall2_impl; [done|].
    intros l' row Hrow. by apply slice_rev_builds. }
  exists out, ls', h'. split_and!; [|done..| |done|done].
  - unfold Store.reverse_column. by erewrite run_bind by by apply run_items.
  - by apply Forall2_fmap_r in Hls'.
Qed.

(** Reversing the rows of a result keeps what is known of its rows. *)
Lemma rows_rep_reverse_row f F :
  rows_rep f F → rows_rep (λ m, Store.bind (f m) Store.reverse_row)
                          (λ g, reverse_row (F g)).
Proof.
  intros Hf h m g Hg.
  destruct (Hf h m g Hg) as (r1 & ls & h1 & Hrun & Hr1 & Hsub & Hls & Hrows & Hnd & Hfr).
  destruct (run_reverse_row h1 r1 _ Hls) as (r & Hrev & Hr).
  exists r, (reverse ls), (<[r := reverse (Store.VRef <$> ls)]> h1).
  assert (h1 ⊆ <[r := reverse (Store.VRef <$> ls)]> h1) as Hsub1
    by by apply insert_subseteq.
  split_and!.
  - by erewrite run_bind by exact Hrun.
  - destruct (h !! r) as [xs|] eqn:E; [|done].
    by rewrite (lookup_weaken _ _ _ _ E Hsub) in Hr.
  - by etrans.
  - by rewrite lookup_insert_eq, fmap_reverse.
  - apply Forall2_reverse. eapply Forall2_impl; [done|].
    intros l' row Hrow. simpl in Hrow. by eapply lookup_weaken.
  - by rewrite reverse_Permutation.
  - by apply Forall_reverse.
Qed.

Lemma rotate_90_rows_rep : rows_rep Store.rotate_90 rotate_90.
Proof. apply (rows_rep_reverse_row _ _ transpose_rows_rep). Qed.

Lemma rotate_180_rows_rep : rows_rep Store.rotate_180 rotate_180.
Proof. apply (rows_rep_reverse_row _ _ reverse_column_rows_rep). Qed.

Lemma rotate_270_rows_rep : rows_rep Store.rotate_270 rotate_270.
Proof.
  intros h m g Hg.
  destruct (transpose_rep h m g Hg) as (r1 & h1 & Hrun1 & Hr1 & Hsub1 & Hres1).
  destruct (reverse_column_rows_rep h1 _ _ Hres1)
    as (r & ls & h' & Hrun & Hr & Hsub & Hls & Hrows & Hnd & Hfr).
  assert (∀ l, h1 !! l = None → h !! l = None) as Hback.
  { intros l Hl. destruct (h !! l) as [xs|] eqn:E; [|done].
    by rewrite (lookup_weaken _ _ _ _ E Hsub1) in Hl. }
  exists r, ls, h'. split_and!; [|by apply Hback|by etrans|done..|].
  - unfold Store.rotate_270. by erewrite run_bind by exact Hrun1.
  - eapply Forall_impl; [done|]. intros l Hl. by apply Hback.
Qed.

Lemma rows_rep_fresh_rows f F : rows_rep f F → Store.fresh_rows f.
Proof.
  intros Hf h m g Hg%read_grid_Some.
  destruct (Hf h m g Hg) as (r & ls & h' & Hrun & _ & _ & Hls & _ & Hnd & Hfr).
  exists r, h', ls. split_and!; [done..|].
  eapply Forall_impl; [done|]. intros l Hl. by apply not_elem_of_dom.
Qed.

End sharing.

(** X11: [reverse_row] makes a shallow copy, every other operation a deep
    one.  The list [reverse_row] returns is a new object, but its rows are
    the row objects of the argument; the rows of the grids returned by
    [transpose], [reverse_column] and the three rotations are pairwise
    distinct objects that were not live at the call. *)
Theorem rows_shared_or_fresh :
  Store.shares_items Store.reverse_row ∧
  Store.fresh_rows Store.transpose ∧
  Store.fresh_rows Store.reverse_column ∧
  Store.fresh_rows Store.rotate_90 ∧
  Store.fresh_rows Store.rotate_180 ∧
  Store.fresh_rows Store.rotate_270.
Proof.
  split_and!.
  - intros h l xs Hl. destruct (run_reverse_row h l xs Hl) as (r & Hrun & Hr).
    exists r. split; [done|]. by apply not_elem_of_dom.
  - apply (rows_rep_fresh_rows _ _ transpose_rows_rep).
  - apply (rows_rep_fresh_rows _ _ reverse_column_rows_rep).
  - apply (rows_rep_fresh_rows _ _ rotate_90_rows_rep).
  - apply (rows_rep_fresh_rows _ _ rotate_180_rows_rep).
  - apply (rows_rep_fresh_rows _ _ rotate_270_rows_rep).
Qed.

Lemma rows_shared_or_fresh_witness :
  ∃ r, Store.reverse_row (Store.VRef 1) Store.example_heap
       = Some (Store.VRef r,
               <[r := [Store.VRef 3; Store.VRef 2]]> Store.example_heap) ∧
       r ∉ dom Store.example_heap.
Proof.
  assert (Store.example_heap !! 1%positive = Some [Store.VRef 2; Store.VRef 3])
    as H by (vm_compute; reflexivity).
  exact (proj1 rows_shared_or_fresh _ _ _ H).
Defined.

(** ** Arguments that are not grids *)

Lemma map_m_items_int (h : Store.heap) (xs : list Store.value) (z : Z) :
  Store.VInt z ∈ xs → Store.map_m Store.items xs h = None.
Proof.
  induction xs as [|x xs IH]; intros Hin; [by apply elem_of_nil in Hin|].
  apply elem_of_cons in Hin as [<-|Hin]; [done|].
  simpl. unfold Store.bind at 1.
  destruct (Store.items x h) as [[ys h']|] eqn:Hx; [|done].
  assert (h' = h) as ->.
  { destruct x as [|l]; simpl in Hx; [done|]. by destruct (h !! l); simplify_eq. }
  unfold Store.bind. by rewrite IH.
Qed.

Lemma for_each_slice_rev_int (out : Store.value) (xs : list Store.value) (z : Z) :
  Store.VInt z ∈ xs →
  ∀ hk : Store.heap,
    Store.for_each xs (λ x, Store.bind (Store.slice_rev x) (Store.append out)) hk
    = None.
Proof.
  induction xs as [|x xs IH]; intros Hin hk; [by apply elem_of_nil in Hin|].
  apply elem_of_cons in Hin as [<-|Hin]; [done|].
  simpl. unfold Store.bind at 1.
  destruct (Store.bind (Store.slice_rev x) (Store.append out) hk) as [[[] h']|]; [|done].
  by apply IH.
Qed.

(** X12: an argument that is not a list of lists makes the operations raise.
    Called on an integer, every operation raises; called on a list object one
    of whose items is an integer, [transpose], [reverse_column] and the three
    rotations raise (while [reverse_row], which never looks at the items,
    returns). *)
Theorem not_a_grid_raises :
  (∀ (h : Store.heap) (z : Z),
     Store.transpose (Store.VInt z) h = None ∧
     Store.reverse_row (Store.VInt z) h = None ∧
     Store.reverse_column (Store.VInt z) h = None ∧
     Store.rotate_90 (Store.VInt z) h = None ∧
     Store.rotate_180 (Store.VInt z) h = None ∧
     Store.rotate_270 (Store.VInt z) h = None) ∧
  (∀ (h : Store.heap) (l : Store.loc) (xs : list Store.value) (z : Z),
     h !! l = Some xs → Store.VInt z ∈ xs →
     Store.transpose (Store.VRef l) h = None ∧
     Store.reverse_column (Store.VRef l) h = None ∧
     Store.rotate_90 (Store.VRef l) h = None ∧
     Store.rotate_180 (Store.VRef l) h = None ∧
     Store.rotate_270 (Store.VRef l) h = None).
Proof.
  split; [done|]. intros h l xs z Hl Hz.
  assert (Store.transpose (Store.VRef l) h = None) as HT.
  { unfold Store.transpose, Store.zip_star, Store.bind. simpl. rewrite Hl.
    by rewrite (map_m_items_int h xs z Hz). }
  assert (Store.reverse_column (Store.VRef l) h = None) as HC.
  { unfold Store.reverse_column. erewrite run_bind by by apply run_items.
    unfold Store.list_comp, Store.bind at 1. simpl.
    unfold Store.bind at 1.
    by rewrite (for_each_slice_rev_int _ xs z Hz). }
  unfold Store.rotate_90, Store.rotate_180, Store.rotate_270, Store.bind.
  by rewrite HT, HC.
Qed.

Lemma not_a_grid_raises_witness :
  Store.rotate_180 (Store.VRef 2) Store.example_heap = None.
Proof.
  assert (Store.example_heap !! 2%positive
          = Some [Store.VInt 1; Store.VInt 2; Store.VInt 3]) as H
    by (vm_compute; reflexivity).
  assert (Store.VInt 1 ∈ [Store.VInt 1; Store.VInt 2; Store.VInt 3]) as Hin
    by (apply list_elem_of_here).
  destruct (proj2 not_a_grid_raises _ _ _ _ H Hin) as (_ & _ & _ & H180 & _).
  exact H180.
Defined.

(** ** Display *)

Example ex_print_matrix :
  print_matrix [[1;2;3];[4;-5;6]]%Z EmptyString
  = String.concat (String Py.newline EmptyString) ["1 2 3"; "4 -5 6"; EmptyString].
Proof. vm_compute. reflexivity. Qed.
Example ex_print_empty_row :
  print_matrix [[]; [7]]%Z EmptyString
  = String.concat (String Py.newline EmptyString) [EmptyString; "7"; EmptyString].
Proof. vm_compute. reflexivity. Qed.

Lemma string_app_cons (x : Ascii.ascii) (a b : string) :
  String x a +:+ b = String x (a +:+ b).
Proof. reflexivity. Qed.








Lemma sep_free_app (a b : string) : sep_free a → sep_free b → sep_free (a +:+ b).
Proof.
  induction a as [|x a IH]; [done|]. rewrite string_app_cons. simpl.
  intros (? & ? & ?) ?. auto.
Qed.


















